(** * bot.py: the per-user rate limiter and the message handler

    A shallow embedding of [RateLimiter.is_rate_limited],
    [get_llm_response] and [process_message] of [src/bot.py], and the
    properties of the specification that concern them.

    Time.  [datetime.now()] is the only clock the limiter reads.  A
    [datetime] is modelled as its number of microseconds (the resolution
    of Python's [datetime]) on the integer line, and the reading of the
    clock is an explicit argument of every call.  Nothing is assumed about
    the clock being monotone unless a statement says so.

    State.  [self.user_requests] is a [defaultdict(list)] keyed by the
    user identifier; it is a [gmap Z (list Z)] whose missing keys read as
    the empty list. *)

From Stdlib Require Import ZArith Lia.
From stdpp Require Import base gmap list strings sorting.

(** ** Configuration ([class Config]) *)

Record Config := {
  REQUEST_TIMEOUT : Z;   (* seconds *)
  RATE_LIMIT : nat       (* requests per minute *)
}.

Definition config : Config := {| REQUEST_TIMEOUT := 30; RATE_LIMIT := 3 |}.

(** ** Time *)

(** [timedelta(minutes=n)], in microseconds. *)
Definition timedelta_minutes (n : Z) : Z := (n * 60000000)%Z.

(** ** The limiter ([class RateLimiter]) *)

Record RateLimiter := { user_requests : gmap Z (list Z) }.

(** [RateLimiter.__init__]: [self.user_requests = defaultdict(list)]. *)
Definition RateLimiter_init : RateLimiter := {| user_requests := ∅ |}.

(** Reading [d[k]] of a [defaultdict(list)]: a missing key reads as []. *)
Definition getitem (d : gmap Z (list Z)) (k : Z) : list Z := default [] (d !! k).

(** The list comprehension of lines 53-56:
    [[req for req in reqs if req > now - timedelta(minutes=1)]]. *)
Definition prune (now : Z) (reqs : list Z) : list Z :=
  filter (λ req : Z, (now - timedelta_minutes 1 < req)%Z) reqs.

(** [is_rate_limited(self, user_id)] with [now = datetime.now()]; the result
    is the returned boolean and the limiter after the call. *)
Definition is_rate_limited (now : Z) (user_id : Z) (self : RateLimiter)
  : bool * RateLimiter :=
  let d1 := <[user_id := prune now (getitem (user_requests self) user_id)]>
              (user_requests self) in
  if decide (RATE_LIMIT config ≤ length (getitem d1 user_id)) then
    (true, {| user_requests := d1 |})
  else
    (false, {| user_requests := <[user_id := getitem d1 user_id ++ [now]]> d1 |}).

(** The timestamps stored for a user. *)
Definition stamps (self : RateLimiter) (user_id : Z) : list Z :=
  getitem (user_requests self) user_id.

(** Successive calls for one user, at the given clock readings. *)
Fixpoint checks (user_id : Z) (times : list Z) (self : RateLimiter)
  : list bool * RateLimiter :=
  match times with
  | [] => ([], self)
  | now :: times' =>
      let r := is_rate_limited now user_id self in
      let rs := checks user_id times' r.2 in
      (r.1 :: rs.1, rs.2)
  end.

(** Successive calls, each with its clock reading and its user. *)
Fixpoint calls (cs : list (Z * Z)) (self : RateLimiter) : RateLimiter :=
  match cs with
  | [] => self
  | (now, user_id) :: cs' => calls cs' (is_rate_limited now user_id self).2
  end.

(** The limiters the program can be in: the one built at start-up, changed
    only by calls of [is_rate_limited] (any user, any clock reading). *)
Inductive reachable : RateLimiter → Prop :=
  | reachable_init : reachable RateLimiter_init
  | reachable_call now user_id self :
      reachable self → reachable (is_rate_limited now user_id self).2.

(** The earliest timestamp of a sequence. *)
Definition earliest (reqs : list Z) : option Z :=
  match reqs with
  | [] => None
  | r :: reqs' => Some (foldr Z.min r reqs')
  end.

(** All the clock readings lie in one window of a minute that starts at [lo]. *)
Definition within_window (lo : Z) (times : list Z) : Prop :=
  Forall (λ t : Z, (lo ≤ t < lo + timedelta_minutes 1)%Z) times.

(** ** The handler's effects

    [get_llm_response] and [process_message] call three collaborators: the
    limiter, the completion endpoint and the chat transport.  A run is
    modelled by the trace of these calls, the limiter it leaves behind and
    whether it returns or lets an exception escape. *)

(** The exceptions of the model are those an [except Exception] clause
    catches.  What such a clause lets through ([asyncio.CancelledError],
    [KeyboardInterrupt] and the other [BaseException]s) is outside the
    model: every statement below is about runs in which no awaited call is
    cancelled. *)
Inductive exn :=
  | TimeoutError                 (* asyncio.TimeoutError *)
  | AttributeError               (* message.from_user is None *)
  | TypeError                    (* message.text is None *)
  | ApiError (cause : string).   (* any other Exception of a library call *)

Inductive outcome (A : Type) :=
  | Return (a : A)
  | Raise (e : exn).
Arguments Return {A} a.
Arguments Raise {A} e.

Inductive level := INFO | WARNING | ERROR | CRITICAL.

Inductive event :=
  | Log (lvl : level)
  | Notify (text : string) (delivered : bool)   (* message.answer, line 128 *)
  | RateCheck (user_id : Z) (limited : bool)    (* rate_limiter.is_rate_limited *)
  | ChatCompletion (prompt : string)            (* openai.ChatCompletion.acreate *)
  | DeleteMessage (deleted : bool)              (* bot.delete_message *)
  | Reply (text : string) (delivered : bool).   (* message.answer, lines 144-156 *)

Definition M (A : Type) : Type := RateLimiter → list event * RateLimiter * outcome A.

#[export] Instance M_ret : MRet M := λ A a self, ([], self, Return a).

#[export] Instance M_bind : MBind M := λ A B f m self,
  match m self with
  | (tr, self', Return a) =>
      match f a self' with (tr', self'', r) => (tr ++ tr', self'', r) end
  | (tr, self', Raise e) => (tr, self', Raise e)
  end.

Definition emit (e : event) : M unit := λ self, ([e], self, Return tt).

Definition raise {A} (e : exn) : M A := λ self, ([], self, Raise e).

(** [try: body except ...: handler]; what the body did before it raised stays. *)
Definition try_except {A} (body : M A) (handler : exn → M A) : M A := λ self,
  match body self with
  | (tr, self', Return a) => (tr, self', Return a)
  | (tr, self', Raise e) =>
      match handler e self' with (tr', self'', r) => (tr ++ tr', self'', r) end
  end.

(** Reading an attribute of an optional object. *)
Definition attr {A} (o : option A) (e : exn) : M A :=
  match o with
  | Some a => mret a
  | None => raise e
  end.

(** What the collaborators answer during one run of the handler. *)
Inductive completion :=
  | Completed (content : option string)   (* response.choices[0].message['content'] *)
  | Raises (e : exn).                     (* the call, or reading its result, raises *)

Record world := {
  clock : Z;                        (* datetime.now() at the rate check *)
  acreate : string → completion;    (* the awaited completion call *)
  notice_delivered : bool;          (* message.answer of line 128 returns *)
  delete_ok : bool;                 (* bot.delete_message returns *)
  reply_delivered : bool;           (* message.answer of lines 144/146 returns *)
  fallback_delivered : bool         (* message.answer of line 153 returns *)
}.

Record Message := {
  from_user : option Z;     (* message.from_user.id *)
  text : option string      (* message.text *)
}.

(** A transport call: it returns, or raises the transport's error. *)
Definition transport (e : event) (ok : bool) : M unit :=
  emit e;; if ok then mret tt else raise (ApiError "transport").

(** [rate_limiter.is_rate_limited(user_id)] on the shared limiter. *)
Definition rate_check (now : Z) (user_id : Z) : M bool := λ self,
  let r := is_rate_limited now user_id self in
  ([RateCheck user_id r.1], r.2, Return r.1).

(** [await asyncio.wait_for(openai.ChatCompletion.acreate(...), timeout=...)]
    followed by [response.choices[0].message['content']]. *)
Definition await_completion (w : world) (message_text : string) : M (option string) :=
  emit (ChatCompletion message_text);;
  match acreate w message_text with
  | Completed content => mret content
  | Raises e => raise e
  end.

(** ** Texts sent to the user *)

Definition nl : string := String (Ascii.ascii_of_nat 10) EmptyString.

Definition throttle_text : string :=
  "⚠️ Слишком много запросов. Пожалуйста, подождите минуту.".

Definition timeout_text : string :=
  "⌛ Время ожидания ответа истекло. Попробуйте позже.".

Definition processing_text : string := "🔄 Обрабатываю ваш запрос...".

Definition apology_text : string :=
  "⚠️ Произошла ошибка при обработке запроса." +:+ nl +:+
  "Попробуйте переформулировать вопрос или повторите позже.".

Definition unexpected_text : string :=
  "⛔ Произошла непредвиденная ошибка." +:+ nl +:+
  "Разработчик уже уведомлен. Пожалуйста, попробуйте позже.".

(** ** [get_llm_response] (lines 65-88) *)

Definition get_llm_response (w : world) (user_id : Z) (message_text : string)
  : M (option string) :=
  try_except
    (limited ← rate_check (clock w) user_id;
     if limited : bool then mret (Some throttle_text)
     else await_completion w message_text)
    (λ e, match e with
          | TimeoutError => emit (Log WARNING);; mret (Some timeout_text)
          | _ => emit (Log ERROR);; mret None
          end).

(** ** [process_message] (lines 120-156) *)

Definition process_message (w : world) (message : Message) : M unit :=
  try_except
    (user_id ← attr (from_user message) AttributeError;
     txt ← attr (text message) TypeError;
     emit (Log INFO);;
     transport (Notify processing_text (notice_delivered w)) (notice_delivered w);;
     response ← get_llm_response w user_id txt;
     try_except
       (transport (DeleteMessage (delete_ok w)) (delete_ok w))
       (λ _, emit (Log WARNING));;
     match response with
     | Some r => transport (Reply r (reply_delivered w)) (reply_delivered w)
     | None => transport (Reply apology_text (reply_delivered w)) (reply_delivered w)
     end)
    (λ _, emit (Log CRITICAL);;
          transport (Reply unexpected_text (fallback_delivered w)) (fallback_delivered w)).

(** ** Observations on a run *)

Definition trace {A} (r : list event * RateLimiter * outcome A) : list event := r.1.1.

(** The final replies that reached the user. *)
Definition replies (tr : list event) : list string :=
  omap (λ e, match e with Reply r true => Some r | _ => None end) tr.

(** The events of the clean-up step (lines 134-140). *)
Definition cleanup (w : world) : list event :=
  if delete_ok w then [DeleteMessage true] else [DeleteMessage false; Log WARNING].

(** The events of delivering [r] (lines 143-156): the reply, and the
    outer handler when that send raises. *)
Definition delivery (w : world) (r : string) : list event :=
  if reply_delivered w then [Reply r true]
  else [Reply r false; Log CRITICAL; Reply unexpected_text (fallback_delivered w)].

(** What [get_llm_response] logs for an answer of the endpoint, and the
    text [process_message] then sends. *)
Definition handler_log (c : completion) : list event :=
  match c with
  | Completed _ => []
  | Raises TimeoutError => [Log WARNING]
  | Raises _ => [Log ERROR]
  end.

Definition response_text (c : completion) : string :=
  match c with
  | Completed (Some r) => r
  | Completed None => apology_text
  | Raises TimeoutError => timeout_text
  | Raises _ => apology_text
  end.

(** ** The readings of the specification that the code does not satisfy *)

(** "A denied message gets neither the processing notice nor a completion
    call", for one run. *)
Definition denied_skips_notice (w : world) (message : Message) (self : RateLimiter)
  : Prop :=
  let tr := trace (process_message w message self) in
  ∀ user_id, RateCheck user_id true ∈ tr →
    (∀ d, Notify processing_text d ∉ tr) ∧ (∀ prompt, ChatCompletion prompt ∉ tr).

(** "A failed completion call is answered by the generic apology, timeout
    or not", for one run. *)
Definition failure_gets_apology (w : world) (message : Message) (self : RateLimiter)
  : Prop :=
  let tr := trace (process_message w message self) in
  ∀ prompt e, ChatCompletion prompt ∈ tr → acreate w prompt = Raises e →
    replies tr = [apology_text].

(** "Whatever path a run takes, exactly one final reply reaches the
    user", for one run. *)
Definition always_one_reply (w : world) (message : Message) (self : RateLimiter)
  : Prop :=
  length (replies (trace (process_message w message self))) = 1.

(** ** Concrete runs *)

(** A chat in which the transport refuses every call of the bot (the bot
    may read the chat and may not write to it). *)
Definition refused (now : Z) : world :=
  {| clock := now; acreate := λ prompt, Completed (Some prompt);
     notice_delivered := false; delete_ok := false;
     reply_delivered := false; fallback_delivered := false |}.

(** A transport and an endpoint that work; the endpoint echoes. *)
Definition calm (now : Z) : world :=
  {| clock := now; acreate := λ prompt, Completed (Some prompt);
     notice_delivered := true; delete_ok := true;
     reply_delivered := true; fallback_delivered := true |}.

Definition with_completion (c : completion) (w : world) : world :=
  {| clock := clock w; acreate := λ _, c;
     notice_delivered := notice_delivered w; delete_ok := delete_ok w;
     reply_delivered := reply_delivered w; fallback_delivered := fallback_delivered w |}.

Definition hello (user_id : Z) : Message :=
  {| from_user := Some user_id; text := Some "hello" |}.

(** User 7 after three admitted requests in the same second. *)
Definition busy : RateLimiter := (checks 7 [0; 250000; 900000]%Z RateLimiter_init).2.

(** ** Runs of several calls and of several messages *)

(** The clock readings of the admitted calls among successive calls for
    one user (those for which [is_rate_limited] returned [False]). *)
Fixpoint admitted (user_id : Z) (times : list Z) (self : RateLimiter) : list Z :=
  match times with
  | [] => []
  | now :: times' =>
      let r := is_rate_limited now user_id self in
      (if r.1 then [] else [now]) ++ admitted user_id times' r.2
  end.

(** The prompts of the completion calls of a run. *)
Definition completions (tr : list event) : list string :=
  omap (λ e, match e with ChatCompletion prompt => Some prompt | _ => None end) tr.

(** The limiter a run leaves behind, and how the run ends. *)
Definition limiter_after {A} (r : list event * RateLimiter * outcome A) : RateLimiter :=
  r.1.2.

Definition ending {A} (r : list event * RateLimiter * outcome A) : outcome A := r.2.

(** Messages handled one after the other on the shared limiter, each in
    its own world; the traces of the runs and the limiter left behind. *)
Fixpoint serve (runs : list (world * Message)) (self : RateLimiter)
  : list (list event) * RateLimiter :=
  match runs with
  | [] => ([], self)
  | (w, message) :: runs' =>
      let r := process_message w message self in
      let rs := serve runs' (limiter_after r) in
      (trace r :: rs.1, rs.2)
  end.

(** The same world, [bot.delete_message] behaving as told. *)
Definition with_delete_ok (ok : bool) (w : world) : world :=
  {| clock := clock w; acreate := acreate w;
     notice_delivered := notice_delivered w; delete_ok := ok;
     reply_delivered := reply_delivered w; fallback_delivered := fallback_delivered w |}.

(** ** The limiter, equationally *)

Section limiter_facts.
Implicit Types (now t user_id : Z) (self : RateLimiter) (reqs : list Z).

Lemma getitem_insert (d : gmap Z (list Z)) k reqs :
    getitem (<[k := reqs]> d) k = reqs.
Proof. unfold getitem. by rewrite lookup_insert_eq. Qed.

Lemma getitem_insert_ne (d : gmap Z (list Z)) k k' reqs :
    k ≠ k' → getitem (<[k := reqs]> d) k' = getitem d k'.
Proof. intros Hne. unfold getitem. by rewrite lookup_insert_ne. Qed.

Lemma is_rate_limited_denied now user_id self :
    RATE_LIMIT config ≤ length (prune now (stamps self user_id)) →
    is_rate_limited now user_id self =
      (true, {| user_requests :=
                  <[user_id := prune now (stamps self user_id)]> (user_requests self) |}).
Proof.
    intros Hlen. unfold is_rate_limited, stamps in *.
    rewrite getitem_insert. by rewrite decide_True.
Qed.

Lemma is_rate_limited_admitted now user_id self :
    length (prune now (stamps self user_id)) < RATE_LIMIT config →
    is_rate_limited now user_id self =
      (false, {| user_requests :=
                   <[user_id := prune now (stamps self user_id) ++ [now]]>
                     (user_requests self) |}).
Proof.
    intros Hlen. unfold is_rate_limited, stamps in *.
    rewrite getitem_insert, decide_False by lia. by rewrite insert_insert_eq.
Qed.

Lemma is_rate_limited_result now user_id self :
    (is_rate_limited now user_id self).1 =
      bool_decide (RATE_LIMIT config ≤ length (prune now (stamps self user_id))).
Proof.
    case_bool_decide as Hlen.
    - by rewrite is_rate_limited_denied.
    - rewrite is_rate_limited_admitted; [done | lia].
Qed.

Lemma stamps_after now user_id self :
    stamps (is_rate_limited now user_id self).2 user_id =
      if (is_rate_limited now user_id self).1
      then prune now (stamps self user_id)
      else prune now (stamps self user_id) ++ [now].
Proof.
    destruct (decide (RATE_LIMIT config ≤ length (prune now (stamps self user_id))))
      as [Hlen|Hlen].
    - rewrite is_rate_limited_denied by done. apply getitem_insert.
    - rewrite is_rate_limited_admitted by lia. apply getitem_insert.
Qed.

Lemma lookup_after_ne now u v self :
    u ≠ v →
    user_requests (is_rate_limited now u self).2 !! v = user_requests self !! v.
Proof.
    intros Hne.
    destruct (decide (RATE_LIMIT config ≤ length (prune now (stamps self u))))
      as [Hlen|Hlen].
    - rewrite is_rate_limited_denied by done. simpl. by rewrite lookup_insert_ne.
    - rewrite is_rate_limited_admitted by lia. simpl. by rewrite lookup_insert_ne.
Qed.

Lemma prune_all now reqs :
    Forall (λ req, (now - timedelta_minutes 1 < req)%Z) reqs → prune now reqs = reqs.
Proof.
    induction 1 as [|r reqs Hr _ IH]; [done|].
    unfold prune in *. rewrite filter_cons_True by done. by rewrite IH.
Qed.

Lemma prune_recent now reqs :
    Forall (λ req, (now - timedelta_minutes 1 < req)%Z) (prune now reqs).
Proof.
    apply Forall_forall. intros r Hr. unfold prune in Hr.
    by apply list_elem_of_filter in Hr as [Hr _].
Qed.

Lemma prune_length now reqs : length (prune now reqs) ≤ length reqs.
Proof. apply length_filter. Qed.

End limiter_facts.

(** ** Calls inside one window *)

Section window.
Implicit Types (now lo user_id : Z) (self : RateLimiter) (times reqs : list Z).

Lemma prune_within_window lo now reqs :
  (lo ≤ now < lo + timedelta_minutes 1)%Z →
  within_window lo reqs → prune now reqs = reqs.
Proof.
  intros Hnow Hreqs. apply prune_all.
  eapply Forall_impl; [exact Hreqs|]. simpl. intros r Hr. lia.
Qed.

Lemma checks_in_window user_id lo times : ∀ self,
  length (stamps self user_id) ≤ RATE_LIMIT config →
  within_window lo (stamps self user_id) →
  within_window lo times →
  (checks user_id times self).1 =
    replicate (Nat.min (RATE_LIMIT config - length (stamps self user_id)) (length times))
      false
    ++ replicate (length times - (RATE_LIMIT config - length (stamps self user_id))) true.
Proof.
  induction times as [|now times IH]; intros self Hlen Hold Hnew.
  { cbn [checks fst length]. by rewrite Nat.min_0_r. }
  apply Forall_cons in Hnew as [Hnow Hnew].
  assert (Hkeep : prune now (stamps self user_id) = stamps self user_id)
    by exact (prune_within_window lo now _ Hnow Hold).
  pose proof (stamps_after now user_id self) as Hafter.
  pose proof (is_rate_limited_result now user_id self) as Hres.
  rewrite Hkeep in Hafter, Hres.
  cbn [checks fst snd].
  destruct (is_rate_limited now user_id self) as [limited self'] eqn:Hcall.
  cbn [fst snd] in *. subst limited.
  case_bool_decide as Hfull.
  - rewrite IH; rewrite ?Hafter; [|lia|done|done].
    replace (RATE_LIMIT config - length (stamps self user_id)) with 0 by lia.
    cbn [Nat.min replicate app length]. by rewrite !Nat.sub_0_r.
  - rewrite IH; rewrite ?Hafter, ?length_app; cbn [length]; [|lia| |done].
    + destruct (RATE_LIMIT config - length (stamps self user_id)) as [|k] eqn:Hk;
        [lia|].
      replace (RATE_LIMIT config - (length (stamps self user_id) + 1)) with k by lia.
      done.
    + apply Forall_app. split; [done|]. by apply Forall_singleton.
Qed.

End window.

(** ** What every reachable limiter satisfies *)

Section invariant.
Implicit Types (now user_id : Z) (self : RateLimiter) (reqs : list Z).

Lemma stamps_init user_id : stamps RateLimiter_init user_id = [].
Proof. done. Qed.

Lemma stamps_after_ne now u v self :
  u ≠ v → stamps (is_rate_limited now u self).2 v = stamps self v.
Proof. intros Hne. unfold stamps, getitem. by rewrite lookup_after_ne. Qed.

Lemma call_keeps_bound now u v self :
  length (stamps self v) ≤ RATE_LIMIT config →
  length (stamps (is_rate_limited now u self).2 v) ≤ RATE_LIMIT config.
Proof.
  intros Hlen. destruct (decide (u = v)) as [->|Hne].
  - rewrite stamps_after, is_rate_limited_result.
    pose proof (prune_length now (stamps self v)).
    case_bool_decide; rewrite ?length_app; cbn [length]; lia.
  - by rewrite stamps_after_ne.
Qed.

Lemma reachable_bound self user_id :
  reachable self → length (stamps self user_id) ≤ RATE_LIMIT config.
Proof.
  induction 1 as [|now u self _ IH].
  - rewrite stamps_init. cbn [length]. lia.
  - by apply call_keeps_bound.
Qed.

Lemma checks_reachable user_id times : ∀ self,
  reachable self → reachable (checks user_id times self).2.
Proof.
  induction times as [|now times IH]; intros self Hself; [done|].
  cbn [checks snd]. apply IH. by constructor.
Qed.

Lemma stamps_calls_others user_id (cs : list (Z * Z)) : ∀ self,
  Forall (λ c, c.2 ≠ user_id) cs → stamps (calls cs self) user_id = stamps self user_id.
Proof.
  induction cs as [|[now v] cs IH]; intros self Hothers; [done|].
  apply Forall_cons in Hothers as [Hv Hothers]. cbn [calls].
  rewrite IH by done. by apply stamps_after_ne.
Qed.

Lemma foldr_min_elem r reqs : foldr Z.min r reqs ∈ r :: reqs.
Proof.
  induction reqs as [|q reqs IH]; cbn [foldr]; [left|].
  destruct (Z.min_spec q (foldr Z.min r reqs)) as [[_ ->]|[_ ->]].
  - right. left.
  - apply elem_of_cons in IH as [->|IH]; [left | right; by right].
Qed.

Lemma foldr_min_le r reqs :
  Forall (λ q, (foldr Z.min r reqs ≤ q)%Z) (r :: reqs).
Proof.
  induction reqs as [|q reqs IH]; cbn [foldr].
  - apply Forall_singleton. lia.
  - apply Forall_cons in IH as [Hr Hreqs].
    repeat apply Forall_cons_2; [lia|lia|].
    eapply Forall_impl; [exact Hreqs|]. cbn beta. intros; lia.
Qed.

Lemma earliest_elem reqs a : earliest reqs = Some a → a ∈ reqs.
Proof.
  destruct reqs as [|r reqs]; [done|]. cbn [earliest].
  intros [= <-]. apply foldr_min_elem.
Qed.

Lemma earliest_le reqs a : earliest reqs = Some a → Forall (λ q, (a ≤ q)%Z) reqs.
Proof.
  destruct reqs as [|r reqs]; [done|]. cbn [earliest].
  intros [= <-]. apply foldr_min_le.
Qed.

Lemma prune_drops now reqs a :
  a ∈ reqs → (a + timedelta_minutes 1 ≤ now)%Z →
  length (prune now reqs) < length reqs.
Proof.
  intros Ha Hold. unfold prune. apply (length_filter_lt _ _ a); [done|]. lia.
Qed.

End invariant.

(** ** The rate limiter: properties of the specification *)

(** C1.  For a user whose timestamp sequence is empty, calls of
    [is_rate_limited] whose clock readings all lie in one 60-second window
    are admitted (return [false]) for the first [RATE_LIMIT = 3] of them and
    denied (return [true]) for every further one.  In particular three
    calls with no time elapsed give [false; false; false] and a fourth one
    gives [true]. *)
Theorem first_requests_admitted_rest_denied (user_id : Z) (self : RateLimiter) :
  stamps self user_id = [] →
  (∀ lo times, within_window lo times →
     (checks user_id times self).1 =
       replicate (Nat.min (RATE_LIMIT config) (length times)) false
       ++ replicate (length times - RATE_LIMIT config) true)
  ∧ (∀ now, (checks user_id [now; now; now] self).1 = [false; false; false]
          ∧ (checks user_id [now; now; now; now] self).1 = [false; false; false; true]).
Proof.
  intros Hfresh.
  assert (Hgen : ∀ lo times, within_window lo times →
     (checks user_id times self).1 =
       replicate (Nat.min (RATE_LIMIT config) (length times)) false
       ++ replicate (length times - RATE_LIMIT config) true).
  { intros lo times Hwin.
    rewrite (checks_in_window user_id lo times self); rewrite ?Hfresh.
    - cbn [length]. by rewrite Nat.sub_0_r.
    - cbn [length]. lia.
    - constructor.
    - done. }
  split; [exact Hgen|]. intros now.
  assert (Hin : (now ≤ now < now + timedelta_minutes 1)%Z)
    by (unfold timedelta_minutes; lia).
  split.
  - apply (Hgen now [now; now; now]).
    unfold within_window. repeat (apply Forall_cons_2; [exact Hin|]). constructor.
  - apply (Hgen now [now; now; now; now]).
    unfold within_window. repeat (apply Forall_cons_2; [exact Hin|]). constructor.
Qed.

Lemma first_requests_admitted_rest_denied_witness :
  (checks 7 [0; 20000000; 59999999; 40000000; 30000000]%Z RateLimiter_init).1
    = [false; false; false; true; true].
Proof.
  assert (Hwin : within_window 0 [0; 20000000; 59999999; 40000000; 30000000]%Z).
  { unfold within_window, timedelta_minutes. repeat constructor; lia. }
  pose proof (proj1 (first_requests_admitted_rest_denied 7 RateLimiter_init eq_refl)
                0%Z _ Hwin) as Hrun.
  vm_compute in Hrun |- *. exact Hrun.
Defined.

(** C5.  Immediately after a call of [is_rate_limited] for a user, every
    timestamp stored for that user is newer than the call's clock reading
    minus 60 seconds; and none is later than that reading when none of the
    stored ones was before the call. *)
Theorem stored_stamps_recent (now user_id : Z) (self : RateLimiter) :
  Forall (λ t : Z, (now - timedelta_minutes 1 < t)%Z)
    (stamps (is_rate_limited now user_id self).2 user_id)
  ∧ (Forall (λ t : Z, (t ≤ now)%Z) (stamps self user_id) →
     Forall (λ t : Z, (now - timedelta_minutes 1 < t ≤ now)%Z)
       (stamps (is_rate_limited now user_id self).2 user_id)).
Proof.
  assert (Hlow : Forall (λ t : Z, (now - timedelta_minutes 1 < t)%Z)
            (stamps (is_rate_limited now user_id self).2 user_id)).
  { rewrite stamps_after.
    destruct (is_rate_limited now user_id self).1.
    - apply prune_recent.
    - apply Forall_app. split; [apply prune_recent|].
      apply Forall_singleton. unfold timedelta_minutes. lia. }
  split; [exact Hlow|]. intros Hpast.
  assert (Hhigh : Forall (λ t : Z, (t ≤ now)%Z)
            (stamps (is_rate_limited now user_id self).2 user_id)).
  { rewrite stamps_after.
    assert (Forall (λ t : Z, (t ≤ now)%Z) (prune now (stamps self user_id))).
    { apply Forall_forall. intros t Ht. unfold prune in Ht.
      apply list_elem_of_filter in Ht as [_ Ht].
      by apply (proj1 (Forall_forall _ _) Hpast). }
    destruct (is_rate_limited now user_id self).1; [done|].
    apply Forall_app. split; [done|]. apply Forall_singleton. lia. }
  apply Forall_forall. intros t Ht. split.
  - by apply (proj1 (Forall_forall _ _) Hlow).
  - by apply (proj1 (Forall_forall _ _) Hhigh).
Qed.

Lemma stored_stamps_recent_witness :
  Forall (λ t : Z, (60500000 - timedelta_minutes 1 < t ≤ 60500000)%Z)
    (stamps (is_rate_limited 60500000 7 busy).2 7).
Proof.
  apply (proj2 (stored_stamps_recent 60500000 7 busy)).
  replace (stamps busy 7) with [0; 250000; 900000]%Z by (vm_compute; reflexivity).
  repeat constructor; lia.
Defined.

(** C7.  A call of [is_rate_limited] that returns [true] appends nothing:
    the user's sequence after the call is the pruned sequence of the
    timestamps stored before it. *)
Theorem denied_appends_nothing (now user_id : Z) (self : RateLimiter) :
  (is_rate_limited now user_id self).1 = true →
  stamps (is_rate_limited now user_id self).2 user_id
    = prune now (stamps self user_id).
Proof. intros Hdenied. by rewrite stamps_after, Hdenied. Qed.

Lemma denied_appends_nothing_witness :
  stamps (is_rate_limited 1000000 7 busy).2 7 = prune 1000000 (stamps busy 7).
Proof. apply (denied_appends_nothing 1000000 7 busy). reflexivity. Defined.

(** C9.  After every call of [is_rate_limited] in the life of the program,
    no user's stored sequence is longer than [RATE_LIMIT = 3]; an admitted
    call appends its timestamp to a pruned sequence that is shorter than
    the limit. *)
Theorem stamps_never_exceed_limit (now u v : Z) (self : RateLimiter) :
  reachable self →
  length (stamps (is_rate_limited now u self).2 v) ≤ RATE_LIMIT config
  ∧ ((is_rate_limited now u self).1 = false →
     length (prune now (stamps self u)) < RATE_LIMIT config
     ∧ stamps (is_rate_limited now u self).2 u = prune now (stamps self u) ++ [now]).
Proof.
  intros Hreach. split.
  - apply call_keeps_bound. by apply reachable_bound.
  - intros Hadmitted. rewrite stamps_after, Hadmitted. split; [|done].
    rewrite is_rate_limited_result in Hadmitted.
    apply bool_decide_eq_false in Hadmitted. lia.
Qed.

Lemma stamps_never_exceed_limit_witness :
  length (stamps (is_rate_limited 1000000 7 busy).2 7) ≤ RATE_LIMIT config.
Proof.
  apply (stamps_never_exceed_limit 1000000 7 7 busy).
  apply checks_reachable, reachable_init.
Defined.

(** C10.  For distinct users [u] and [v], a call of [is_rate_limited] for
    [u] leaves the map entry of [v] as it was, and neither its result nor
    the sequence it stores for [u] depends on any entry but that of [u]. *)
Theorem other_users_untouched (now u v : Z) (self : RateLimiter) :
  u ≠ v →
  user_requests (is_rate_limited now u self).2 !! v = user_requests self !! v
  ∧ (∀ self', stamps self' u = stamps self u →
       (is_rate_limited now u self').1 = (is_rate_limited now u self).1
       ∧ stamps (is_rate_limited now u self').2 u
         = stamps (is_rate_limited now u self).2 u).
Proof.
  intros Hne. split; [by apply lookup_after_ne|].
  intros self' Hsame.
  assert (Hres : (is_rate_limited now u self').1 = (is_rate_limited now u self).1)
    by by rewrite !is_rate_limited_result, Hsame.
  split; [done|]. by rewrite !stamps_after, Hres, Hsame.
Qed.

Lemma other_users_untouched_witness :
  user_requests (is_rate_limited 1000000 8 busy).2 !! 7%Z = user_requests busy !! 7%Z.
Proof. apply (other_users_untouched 1000000 8 7 busy). discriminate. Defined.

(** C6.  Once a user has been denied, the next call for that user, made
    more than 60 seconds after the earliest timestamp of the window that
    caused the denial, is admitted; calls of other users may come in
    between. *)
Theorem admitted_after_window_passes
    (denied_at now user_id a : Z) (others : list (Z * Z)) (self : RateLimiter) :
  reachable self →
  (is_rate_limited denied_at user_id self).1 = true →
  earliest (stamps (is_rate_limited denied_at user_id self).2 user_id) = Some a →
  Forall (λ c, c.2 ≠ user_id) others →
  (a + timedelta_minutes 1 < now)%Z →
  (is_rate_limited now user_id
     (calls others (is_rate_limited denied_at user_id self).2)).1 = false.
Proof.
  intros Hreach Hdenied Hmin Hothers Hlate.
  rewrite is_rate_limited_result, stamps_calls_others by done.
  apply bool_decide_eq_false.
  pose proof (call_keeps_bound denied_at user_id user_id self
                (reachable_bound self user_id Hreach)) as Hbound.
  pose proof (prune_drops now _ a (earliest_elem _ _ Hmin)) as Hdrop.
  lia.
Qed.

Lemma admitted_after_window_passes_witness :
  (is_rate_limited 60000001 7
     (calls [(2000000, 8); (59000000, 9)]%Z (is_rate_limited 1000000 7 busy).2)).1
    = false.
Proof.
  apply (admitted_after_window_passes 1000000 60000001 7 0
           [(2000000, 8); (59000000, 9)]%Z busy).
  - apply checks_reachable, reachable_init.
  - reflexivity.
  - reflexivity.
  - repeat constructor; discriminate.
  - reflexivity.
Defined.

(** ** The handler, path by path *)

Ltac run_handler :=
  cbv [process_message get_llm_response try_except attr mbind M_bind mret M_ret
       emit raise transport rate_check await_completion trace fst snd
       from_user text clock acreate notice_delivered delete_ok reply_delivered
       fallback_delivered cleanup delivery handler_log response_text].

(** Every way a run of the handler can go, one goal each. *)
Ltac handler_paths w message self :=
  unfold limiter_after, ending, trace;
  destruct message as [[?user_id|] [?txt|]];
  destruct w as [?now ?ask [] [] [] []];
  run_handler;
  try match goal with
      | |- context [is_rate_limited ?now ?u self] =>
          destruct (is_rate_limited now u self) as [[] ?self'] eqn:?
      end;
  cbn [fst snd];
  try match goal with
      | |- context [match ?ask ?txt with Completed _ => _ | Raises _ => _ end] =>
          destruct (ask txt) as [[?r|]|[]] eqn:?
      end;
  cbn.

(** Membership in a trace that is written out. *)
Ltac in_trace :=
  unfold not; intros;
  repeat match goal with
         | H : _ ∈ _ |- _ =>
             progress rewrite ?elem_of_app, ?elem_of_cons, ?elem_of_nil in H
         end;
  intuition (try discriminate; try congruence).

Section handler.
Implicit Types (w : world) (message : Message) (self : RateLimiter).
Implicit Types (user_id : Z) (txt prompt r : string).

Lemma trace_no_sender w (body : option string) self :
  trace (process_message w {| from_user := None; text := body |} self)
    = [Log CRITICAL; Reply unexpected_text (fallback_delivered w)].
Proof. destruct w as [now ask [] [] [] []]; reflexivity. Qed.

Lemma trace_no_text w user_id self :
  trace (process_message w {| from_user := Some user_id; text := None |} self)
    = [Log CRITICAL; Reply unexpected_text (fallback_delivered w)].
Proof. destruct w as [now ask [] [] [] []]; reflexivity. Qed.

Lemma trace_notice_lost w user_id txt self :
  notice_delivered w = false →
  trace (process_message w {| from_user := Some user_id; text := Some txt |} self)
    = [Log INFO; Notify processing_text false; Log CRITICAL;
       Reply unexpected_text (fallback_delivered w)].
Proof.
  destruct w as [now ask nd [] [] []]; cbn [notice_delivered]; intros ->;
    reflexivity.
Qed.

Lemma trace_denied w user_id txt self :
  notice_delivered w = true →
  (is_rate_limited (clock w) user_id self).1 = true →
  trace (process_message w {| from_user := Some user_id; text := Some txt |} self)
    = [Log INFO; Notify processing_text true; RateCheck user_id true]
      ++ cleanup w ++ delivery w throttle_text.
Proof.
  destruct w as [now ask nd dok rd fd]. cbn [notice_delivered clock].
  intros -> Hlim. run_handler.
  destruct (is_rate_limited now user_id self) as [limited self'].
  cbn [fst] in Hlim. subst limited. cbn [fst snd].
  destruct dok, rd, fd; reflexivity.
Qed.

Lemma trace_admitted w user_id txt self :
  notice_delivered w = true →
  (is_rate_limited (clock w) user_id self).1 = false →
  trace (process_message w {| from_user := Some user_id; text := Some txt |} self)
    = [Log INFO; Notify processing_text true; RateCheck user_id false;
       ChatCompletion txt]
      ++ handler_log (acreate w txt) ++ cleanup w
      ++ delivery w (response_text (acreate w txt)).
Proof.
  destruct w as [now ask nd dok rd fd]. cbn [notice_delivered clock].
  intros -> Hlim. run_handler.
  destruct (is_rate_limited now user_id self) as [limited self'].
  cbn [fst] in Hlim. subst limited. cbn [fst snd].
  destruct (ask txt) as [[r|]|[]]; destruct dok, rd, fd; reflexivity.
Qed.

Lemma trace_cases w message self :
  trace (process_message w message self)
    = [Log CRITICAL; Reply unexpected_text (fallback_delivered w)]
  ∨ trace (process_message w message self)
    = [Log INFO; Notify processing_text false; Log CRITICAL;
       Reply unexpected_text (fallback_delivered w)]
  ∨ (∃ user_id txt,
       from_user message = Some user_id ∧ text message = Some txt
       ∧ notice_delivered w = true
       ∧ (is_rate_limited (clock w) user_id self).1 = true
       ∧ trace (process_message w message self)
         = [Log INFO; Notify processing_text true; RateCheck user_id true]
           ++ cleanup w ++ delivery w throttle_text)
  ∨ (∃ user_id txt,
       from_user message = Some user_id ∧ text message = Some txt
       ∧ notice_delivered w = true
       ∧ (is_rate_limited (clock w) user_id self).1 = false
       ∧ trace (process_message w message self)
         = [Log INFO; Notify processing_text true; RateCheck user_id false;
            ChatCompletion txt]
           ++ handler_log (acreate w txt) ++ cleanup w
           ++ delivery w (response_text (acreate w txt))).
Proof.
  destruct message as [[user_id|] body].
  2: { left. apply trace_no_sender. }
  destruct body as [txt|].
  2: { left. apply trace_no_text. }
  destruct (notice_delivered w) eqn:Hnotice.
  2: { right; left. by apply trace_notice_lost. }
  destruct (is_rate_limited (clock w) user_id self).1 eqn:Hlim.
  - right; right; left. exists user_id, txt.
    repeat split; try done. by apply trace_denied.
  - right; right; right. exists user_id, txt.
    repeat split; try done. by apply trace_admitted.
Qed.

Lemma replies_cleanup w : replies (cleanup w) = [].
Proof. unfold cleanup. by destruct (delete_ok w). Qed.

Lemma replies_handler_log c : replies (handler_log c) = [].
Proof. by destruct c as [?|[]]. Qed.

Lemma replies_delivery w r :
  replies (delivery w r) =
    if reply_delivered w then [r]
    else if fallback_delivered w then [unexpected_text] else [].
Proof. unfold delivery. by destruct (reply_delivered w), (fallback_delivered w). Qed.

Lemma replies_app tr1 tr2 : replies (tr1 ++ tr2) = replies tr1 ++ replies tr2.
Proof. apply omap_app. Qed.

Lemma completion_not_in_cleanup w prompt : ChatCompletion prompt ∉ cleanup w.
Proof. unfold cleanup. destruct (delete_ok w); in_trace. Qed.

Lemma completion_not_in_delivery w r prompt : ChatCompletion prompt ∉ delivery w r.
Proof. unfold delivery. destruct (reply_delivered w); in_trace. Qed.

Lemma completion_not_in_handler_log c prompt : ChatCompletion prompt ∉ handler_log c.
Proof. destruct c as [?|[]]; cbn [handler_log]; in_trace. Qed.

Lemma rate_check_not_in_cleanup w user_id b : RateCheck user_id b ∉ cleanup w.
Proof. unfold cleanup. destruct (delete_ok w); in_trace. Qed.

Lemma rate_check_not_in_delivery w r user_id b : RateCheck user_id b ∉ delivery w r.
Proof. unfold delivery. destruct (reply_delivered w); in_trace. Qed.

Lemma rate_check_not_in_handler_log c user_id b : RateCheck user_id b ∉ handler_log c.
Proof. destruct c as [?|[]]; cbn [handler_log]; in_trace. Qed.

(** A completion call in the trace: the message was well formed, the
    notice went out and the limiter admitted the request. *)
Lemma completion_called w message self prompt :
  ChatCompletion prompt ∈ trace (process_message w message self) →
  ∃ user_id,
    from_user message = Some user_id ∧ text message = Some prompt
    ∧ notice_delivered w = true
    ∧ (is_rate_limited (clock w) user_id self).1 = false.
Proof.
  intros Hin.
  destruct (trace_cases w message self)
    as [Htr|[Htr|[(u & txt & Hu & Htxt & Hn & Hlim & Htr)
                 |(u & txt & Hu & Htxt & Hn & Hlim & Htr)]]];
    rewrite Htr in Hin.
  - in_trace.
  - in_trace.
  - pose proof (completion_not_in_cleanup w prompt).
    pose proof (completion_not_in_delivery w throttle_text prompt).
    in_trace.
  - pose proof (completion_not_in_cleanup w prompt).
    pose proof (completion_not_in_delivery w (response_text (acreate w txt)) prompt).
    pose proof (completion_not_in_handler_log (acreate w txt) prompt).
    exists u. assert (prompt = txt) as -> by in_trace. done.
Qed.

(** A rate check in the trace: likewise, and its result is the limiter's. *)
Lemma rate_checked w message self user_id b :
  RateCheck user_id b ∈ trace (process_message w message self) →
  ∃ txt,
    from_user message = Some user_id ∧ text message = Some txt
    ∧ notice_delivered w = true
    ∧ (is_rate_limited (clock w) user_id self).1 = b.
Proof.
  intros Hin.
  destruct (trace_cases w message self)
    as [Htr|[Htr|[(u & txt & Hu & Htxt & Hn & Hlim & Htr)
                 |(u & txt & Hu & Htxt & Hn & Hlim & Htr)]]];
    rewrite Htr in Hin.
  - in_trace.
  - in_trace.
  - pose proof (rate_check_not_in_cleanup w user_id b).
    pose proof (rate_check_not_in_delivery w throttle_text user_id b).
    exists txt. assert (RateCheck user_id b = RateCheck u true) as [= -> ->]
      by in_trace. done.
  - pose proof (rate_check_not_in_cleanup w user_id b).
    pose proof (rate_check_not_in_delivery w (response_text (acreate w txt)) user_id b).
    pose proof (rate_check_not_in_handler_log (acreate w txt) user_id b).
    exists txt. assert (RateCheck user_id b = RateCheck u false) as [= -> ->]
      by in_trace. done.
Qed.

(** The replies that reach the user when the completion call was made. *)
Lemma replies_after_completion w message self prompt :
  ChatCompletion prompt ∈ trace (process_message w message self) →
  replies (trace (process_message w message self)) =
    if reply_delivered w then [response_text (acreate w prompt)]
    else if fallback_delivered w then [unexpected_text] else [].
Proof.
  intros Hin.
  destruct (completion_called _ _ _ _ Hin) as (u & Hu & Htxt & Hn & Hlim).
  destruct message as [sender body]. cbn [from_user text] in Hu, Htxt. subst.
  rewrite trace_admitted by done.
  rewrite !replies_app, replies_handler_log, replies_cleanup, replies_delivery.
  done.
Qed.

End handler.

(** ** The handler: properties of the specification *)

(** The run of a fourth message of user 7 within the same second. *)
Lemma busy_run :
  trace (process_message (calm 1000000) (hello 7) busy)
    = [Log INFO; Notify processing_text true; RateCheck 7 true;
       DeleteMessage true; Reply throttle_text true].
Proof. vm_compute. reflexivity. Qed.

(** The run of a message whose completion call times out. *)
Lemma timed_out_run :
  trace (process_message (with_completion (Raises TimeoutError) (calm 1000000))
           (hello 8) busy)
    = [Log INFO; Notify processing_text true; RateCheck 8 false;
       ChatCompletion "hello"; Log WARNING; DeleteMessage true;
       Reply timeout_text true].
Proof. vm_compute. reflexivity. Qed.

Lemma timeout_text_not_apology : timeout_text ≠ apology_text.
Proof. vm_compute. discriminate. Qed.

(** C2, as the specification states it, fails: the processing notice is
    sent at line 128, before [get_llm_response] asks the limiter, so a
    denied message has had its notice. *)
Lemma denied_run_sends_notice : ¬ denied_skips_notice (calm 1000000) (hello 7) busy.
Proof.
  unfold denied_skips_notice. cbv zeta. rewrite busy_run. intros Hskip.
  destruct (Hskip 7%Z) as [Hnotice _].
  - by repeat constructor.
  - apply (Hnotice true). by repeat constructor.
Qed.

(** C2, amended.  For every inbound message whose rate check is denied,
    the completion client is never invoked: after the processing notice,
    which has been sent before the check, the handler goes from the rate
    check to the clean-up of the notice and to delivering the canned
    throttling message. *)
Theorem denied_goes_to_throttle_reply
    (w : world) (message : Message) (self : RateLimiter) (user_id : Z) :
  RateCheck user_id true ∈ trace (process_message w message self) →
  trace (process_message w message self)
    = [Log INFO; Notify processing_text true; RateCheck user_id true]
      ++ cleanup w ++ delivery w throttle_text
  ∧ (∀ prompt, ChatCompletion prompt ∉ trace (process_message w message self))
  ∧ replies (trace (process_message w message self))
    = if reply_delivered w then [throttle_text]
      else if fallback_delivered w then [unexpected_text] else [].
Proof.
  intros Hcheck.
  destruct (rate_checked _ _ _ _ _ Hcheck) as (txt & Hu & Htxt & Hn & Hlim).
  destruct message as [sender body]. cbn [from_user text] in Hu, Htxt. subst.
  assert (Htr := trace_denied w user_id txt self Hn Hlim).
  split; [exact Htr|]. split.
  - intros prompt Hcall.
    destruct (completion_called _ _ _ _ Hcall) as (u & [= <-] & _ & _ & Hadm).
    congruence.
  - rewrite Htr, !replies_app, replies_cleanup, replies_delivery. done.
Qed.

Lemma denied_goes_to_throttle_reply_witness :
  trace (process_message (calm 1000000) (hello 7) busy)
    = [Log INFO; Notify processing_text true; RateCheck 7 true;
       DeleteMessage true; Reply throttle_text true]
  ∧ ∀ prompt, ChatCompletion prompt ∉ trace (process_message (calm 1000000) (hello 7) busy).
Proof.
  assert (Hcheck : RateCheck 7 true ∈ trace (process_message (calm 1000000) (hello 7) busy)).
  { rewrite busy_run. by repeat constructor. }
  pose proof (denied_goes_to_throttle_reply (calm 1000000) (hello 7) busy 7 Hcheck)
    as (Htr & Hnone & _).
  split; [exact Htr | exact Hnone].
Defined.

(** C3, as the specification states it, fails: a timed-out completion call
    is answered with the text of line 85, not with the apology of line 147. *)
Lemma timeout_reply_is_not_apology :
  ¬ failure_gets_apology (with_completion (Raises TimeoutError) (calm 1000000))
      (hello 8) busy.
Proof.
  unfold failure_gets_apology. cbv zeta. rewrite timed_out_run. intros Hsame.
  specialize (Hsame "hello" TimeoutError).
  assert (Hreply : [timeout_text] = [apology_text]).
  { apply Hsame; [by repeat constructor | reflexivity]. }
  injection Hreply as Hreply. by apply timeout_text_not_apology.
Qed.

(** C3, amended.  For every completion call that fails, the reply that
    reaches the user is fixed by the kind of failure alone: the
    timeout-specific message for a timeout, and one generic apology, the
    same text whatever the error, for every other failure; the two texts
    differ. *)
Theorem failure_reply_text
    (w : world) (message : Message) (self : RateLimiter) (prompt : string) (e : exn) :
  ChatCompletion prompt ∈ trace (process_message w message self) →
  acreate w prompt = Raises e →
  reply_delivered w = true →
  replies (trace (process_message w message self))
    = [match e with TimeoutError => timeout_text | _ => apology_text end]
  ∧ timeout_text ≠ apology_text.
Proof.
  intros Hcall Hfail Hsent. split; [|exact timeout_text_not_apology].
  rewrite (replies_after_completion _ _ _ _ Hcall), Hsent, Hfail.
  by destruct e.
Qed.

Lemma failure_reply_text_witness :
  replies (trace (process_message
                    (with_completion (Raises (ApiError "502 Bad Gateway")) (calm 1000000))
                    (hello 8) busy))
    = [apology_text].
Proof.
  refine (proj1 (failure_reply_text
                   (with_completion (Raises (ApiError "502 Bad Gateway")) (calm 1000000))
                   (hello 8) busy "hello" (ApiError "502 Bad Gateway") _ eq_refl eq_refl)).
  vm_compute. by repeat constructor.
Defined.

(** C4.  When the completion call of an inbound message exceeds the
    timeout, the user receives the timeout-specific message (a constant of
    the program, no text of the model); when it raises any other error, the
    user receives the generic apology, which is not the timeout message. *)
Theorem timeout_and_failure_replies
    (w : world) (message : Message) (self : RateLimiter) (prompt : string) :
  ChatCompletion prompt ∈ trace (process_message w message self) →
  reply_delivered w = true →
  (acreate w prompt = Raises TimeoutError →
     replies (trace (process_message w message self)) = [timeout_text])
  ∧ (∀ e, acreate w prompt = Raises e → e ≠ TimeoutError →
       replies (trace (process_message w message self)) = [apology_text]
       ∧ apology_text ≠ timeout_text).
Proof.
  intros Hcall Hsent.
  rewrite (replies_after_completion _ _ _ _ Hcall), Hsent. split.
  - by intros ->.
  - intros e -> Hother. split.
    + by destruct e.
    + intros Heq. by apply timeout_text_not_apology.
Qed.

Lemma timeout_and_failure_replies_witness :
  replies (trace (process_message (with_completion (Raises TimeoutError) (calm 1000000))
                    (hello 8) busy))
    = [timeout_text].
Proof.
  refine (proj1 (timeout_and_failure_replies
                   (with_completion (Raises TimeoutError) (calm 1000000))
                   (hello 8) busy "hello" _ eq_refl) eq_refl).
  rewrite timed_out_run. by repeat constructor.
Defined.

(** However a run goes, at most one final reply reaches the user. *)
Lemma at_most_one_reply (w : world) (message : Message) (self : RateLimiter) :
  length (replies (trace (process_message w message self))) ≤ 1.
Proof.
  destruct (trace_cases w message self)
    as [Htr|[Htr|[(u & txt & _ & _ & _ & _ & Htr)|(u & txt & _ & _ & _ & _ & Htr)]]];
    rewrite Htr, ?replies_app, ?replies_handler_log, ?replies_cleanup,
      ?replies_delivery;
    destruct (reply_delivered w), (fallback_delivered w); cbn; lia.
Qed.

(** No reply reaches the user when the transport refuses both the notice
    and the message of the outer handler; the send of line 153 is outside
    any [try]. *)
Lemma no_reply_when_transport_down
    (w : world) (message : Message) (self : RateLimiter) :
  notice_delivered w = false → fallback_delivered w = false →
  replies (trace (process_message w message self)) = [].
Proof.
  intros Hnotice Hfallback.
  destruct (trace_cases w message self)
    as [Htr|[Htr|[(u & txt & _ & _ & Hn & _ & _)|(u & txt & _ & _ & Hn & _ & _)]]];
    try congruence; rewrite Htr, Hfallback; reflexivity.
Qed.

(** The number of final replies that reach the user. *)
Lemma reply_count (w : world) (message : Message) (self : RateLimiter) :
  length (replies (trace (process_message w message self))) =
    if fallback_delivered w then 1
    else match from_user message, text message with
         | Some _, Some _ => if notice_delivered w && reply_delivered w then 1 else 0
         | _, _ => 0
         end.
Proof. handler_paths w message self; reflexivity. Qed.

(** C8, as the specification states it, fails: the send of the outer
    handler (line 153) is outside any [try], so in a chat where the
    transport refuses the bot the notice raises, the outer handler's send
    raises too, and no reply reaches the user. *)
Lemma silent_when_sends_refused : ¬ always_one_reply (refused 1000000) (hello 8) busy.
Proof. unfold always_one_reply. rewrite reply_count. cbn. discriminate. Qed.

(** C8, amended.  On every path of the handler (rate limited, timeout,
    provider failure, or an exception caught by the outer [except
    Exception]) exactly one final reply reaches the user, unless the send
    of the outer handler is attempted and the transport refuses it: exactly
    one reply is delivered if and only if the transport accepts the outer
    handler's message, or that message is not needed because the message
    has a sender and a text and the notice and the reply are delivered. *)
Theorem one_reply_unless_last_send_refused
    (w : world) (message : Message) (self : RateLimiter) :
  length (replies (trace (process_message w message self))) = 1
  ↔ fallback_delivered w = true
    ∨ (is_Some (from_user message) ∧ is_Some (text message)
       ∧ notice_delivered w = true ∧ reply_delivered w = true).
Proof.
  rewrite reply_count.
  destruct (fallback_delivered w); [by split; [left|]|].
  destruct (from_user message) as [user_id|], (text message) as [txt|].
  - destruct (notice_delivered w), (reply_delivered w); cbn [andb]; split;
      try discriminate; try (intros [?|(_ & _ & ? & ?)]; discriminate).
    + intros _. right. by repeat split.
    + done.
  - split; [discriminate|]. intros [?|(_ & [? ?] & _)]; discriminate.
  - split; [discriminate|]. intros [?|([? ?] & _)]; discriminate.
  - split; [discriminate|]. intros [?|([? ?] & _)]; discriminate.
Qed.

Lemma one_reply_unless_last_send_refused_witness :
  length (replies (trace (process_message
      {| clock := 1000000; acreate := λ _, Raises (ApiError "401 Unauthorized");
         notice_delivered := true; delete_ok := false;
         reply_delivered := false; fallback_delivered := true |}
      (hello 8) busy))) = 1.
Proof.
  apply (proj2 (one_reply_unless_last_send_refused _ (hello 8) busy)).
  left. reflexivity.
Defined.

(** ** The rate limiter: further properties *)

Section limiter_more.
Implicit Types (now t user_id : Z) (self : RateLimiter) (reqs times : list Z).

Lemma prune_app now reqs1 reqs2 :
  prune now (reqs1 ++ reqs2) = prune now reqs1 ++ prune now reqs2.
Proof. apply filter_app. Qed.

Lemma prune_prune t1 t2 reqs :
  (t1 ≤ t2)%Z → prune t2 (prune t1 reqs) = prune t2 reqs.
Proof.
  intros Hle. unfold prune. apply list_filter_filter_l. intros r Hr. lia.
Qed.

Lemma prune_none now reqs :
  Forall (λ t, (t + timedelta_minutes 1 ≤ now)%Z) reqs → prune now reqs = [].
Proof.
  induction 1 as [|r reqs Hr _ IH]; [done|].
  unfold prune in *. rewrite filter_cons_False by lia. exact IH.
Qed.

Lemma stamps_missing self user_id :
  user_requests self !! user_id = None → stamps self user_id = [].
Proof. intros Hnone. unfold stamps, getitem. by rewrite Hnone. Qed.

Lemma checks_app user_id times1 times2 : ∀ self,
  checks user_id (times1 ++ times2) self =
    ((checks user_id times1 self).1
       ++ (checks user_id times2 (checks user_id times1 self).2).1,
     (checks user_id times2 (checks user_id times1 self).2).2).
Proof.
  induction times1 as [|now times1 IH]; intros self.
  - cbn [app checks fst snd]. by destruct (checks user_id times2 self).
  - cbn [app checks fst snd]. by rewrite IH.
Qed.

Lemma admitted_app user_id times1 times2 : ∀ self,
  admitted user_id (times1 ++ times2) self =
    admitted user_id times1 self
      ++ admitted user_id times2 (checks user_id times1 self).2.
Proof.
  induction times1 as [|now times1 IH]; intros self; [done|].
  cbn [app admitted checks fst snd]. by rewrite IH, app_assoc.
Qed.

(** What is stored and what was admitted agree on every window that ends
    at a reading no earlier call was later than. *)
Lemma stored_is_admitted now user_id times : ∀ self (hist : list Z),
  prune now (stamps self user_id) = prune now hist →
  Forall (λ t, (t ≤ now)%Z) times →
  prune now (stamps (checks user_id times self).2 user_id)
    = prune now (hist ++ admitted user_id times self).
Proof.
  induction times as [|t times IH]; intros self hist Hhist Hpast.
  { cbn [checks admitted snd]. by rewrite app_nil_r. }
  apply Forall_cons in Hpast as [Ht Hpast].
  cbn [checks admitted fst snd].
  rewrite app_assoc. apply IH; [|done].
  rewrite stamps_after, prune_app.
  destruct (is_rate_limited t user_id self).1.
  - by rewrite app_nil_r, prune_prune.
  - by rewrite !prune_app, prune_prune, Hhist.
Qed.

Lemma result_counts_admitted now user_id times self :
  stamps self user_id = [] →
  Forall (λ t, (t ≤ now)%Z) times →
  (is_rate_limited now user_id (checks user_id times self).2).1
    = bool_decide (RATE_LIMIT config
                   ≤ length (prune now (admitted user_id times self))).
Proof.
  intros Hfresh Hpast. rewrite is_rate_limited_result.
  rewrite (stored_is_admitted now user_id times self []); [done| |done].
  by rewrite Hfresh.
Qed.

End limiter_more.

(** X1.  A user the limiter has no entry for is admitted, and the call
    creates the entry with the single timestamp of the call. *)
Theorem first_request_admitted (now user_id : Z) (self : RateLimiter) :
  user_requests self !! user_id = None →
  is_rate_limited now user_id self
    = (false, {| user_requests := <[user_id := [now]]> (user_requests self) |}).
Proof.
  intros Hnone. pose proof (stamps_missing self user_id Hnone) as Hempty.
  rewrite is_rate_limited_admitted; rewrite Hempty; [done|].
  cbn. lia.
Qed.

Lemma first_request_admitted_witness :
  is_rate_limited 5 8 busy
    = (false, {| user_requests := <[8%Z := [5%Z]]> (user_requests busy) |}).
Proof. apply (first_request_admitted 5 8 busy). reflexivity. Defined.

(** X2.  No call ever removes an entry: after any sequence of calls the
    keys of the map are those it had, and every user who asked. *)
Theorem entries_only_grow (cs : list (Z * Z)) (self : RateLimiter) :
  dom (user_requests (calls cs self))
    = list_to_set (cs.*2) ∪ dom (user_requests self).
Proof.
  revert self. induction cs as [|[now u] cs IH]; intros self.
  - cbn [calls fmap list_fmap list_to_set]. by rewrite (left_id_L ∅ (∪)).
  - cbn [calls]. rewrite IH. rewrite fmap_cons, list_to_set_cons. cbn [snd].
    assert (Hstep : dom (user_requests (is_rate_limited now u self).2)
                    = {[u]} ∪ dom (user_requests self)).
    { destruct (decide (RATE_LIMIT config ≤ length (prune now (stamps self u)))).
      - rewrite is_rate_limited_denied by done. apply dom_insert_L.
      - rewrite is_rate_limited_admitted by lia. apply dom_insert_L. }
    rewrite Hstep. by rewrite (assoc_L (∪)), (comm_L (∪) (list_to_set _)).
Qed.

(** X3.  When every stored timestamp of a user is at least 60 seconds old
    (exactly 60 seconds included), the call is admitted and the user's
    sequence is the timestamp of the call alone, however long it was. *)
Theorem quiet_minute_resets (now user_id : Z) (self : RateLimiter) :
  Forall (λ t : Z, (t + timedelta_minutes 1 ≤ now)%Z) (stamps self user_id) →
  (is_rate_limited now user_id self).1 = false
  ∧ stamps (is_rate_limited now user_id self).2 user_id = [now].
Proof.
  intros Hold. pose proof (prune_none now _ Hold) as Hnone.
  assert (Hres : (is_rate_limited now user_id self).1 = false).
  { rewrite is_rate_limited_result, Hnone. apply bool_decide_eq_false. cbn. lia. }
  split; [done|]. by rewrite stamps_after, Hres, Hnone.
Qed.

Lemma quiet_minute_resets_witness :
  (is_rate_limited 60900000 7 busy).1 = false
  ∧ stamps (is_rate_limited 60900000 7 busy).2 7 = [60900000%Z].
Proof.
  apply (quiet_minute_resets 60900000 7 busy).
  replace (stamps busy 7) with [0; 250000; 900000]%Z by (vm_compute; reflexivity).
  unfold timedelta_minutes. repeat constructor; lia.
Defined.

(** X4.  A denied call leaves no mark: a later call (the clock not having
    gone back) returns and stores what it would have without it. *)
Theorem denied_call_forgotten (t1 t2 user_id : Z) (self : RateLimiter) :
  (t1 ≤ t2)%Z →
  (is_rate_limited t1 user_id self).1 = true →
  is_rate_limited t2 user_id (is_rate_limited t1 user_id self).2
    = is_rate_limited t2 user_id self.
Proof.
  intros Hle Hdenied.
  assert (Hfull : RATE_LIMIT config ≤ length (prune t1 (stamps self user_id))).
  { rewrite is_rate_limited_result in Hdenied. by apply bool_decide_eq_true in Hdenied. }
  rewrite (is_rate_limited_denied t1) by done. cbn [snd].
  destruct (decide (RATE_LIMIT config ≤ length (prune t2 (stamps self user_id))))
    as [Hlen|Hlen].
  - rewrite (is_rate_limited_denied t2 user_id self) by done.
    rewrite is_rate_limited_denied; unfold stamps; cbn [user_requests];
      rewrite getitem_insert, prune_prune by done; [|done].
    by rewrite insert_insert_eq.
  - rewrite (is_rate_limited_admitted t2 user_id self) by lia.
    rewrite is_rate_limited_admitted; unfold stamps in *; cbn [user_requests];
      rewrite getitem_insert, prune_prune by done; [|lia].
    by rewrite insert_insert_eq.
Qed.

Lemma denied_call_forgotten_witness :
  is_rate_limited 60500000 7 (is_rate_limited 1000000 7 busy).2
    = is_rate_limited 60500000 7 busy.
Proof.
  apply (denied_call_forgotten 1000000 60500000 7 busy); [lia | reflexivity].
Defined.

(** X5.  The limiter is a sliding-window counter of the admitted requests:
    for a user who starts with no timestamp, a call that no earlier call
    was later than is denied exactly when [RATE_LIMIT] or more of the
    requests admitted before it are less than 60 seconds old. *)
Theorem denied_iff_limit_recent
    (now user_id : Z) (earlier : list Z) (self : RateLimiter) :
  stamps self user_id = [] →
  Forall (λ t : Z, (t ≤ now)%Z) earlier →
  (is_rate_limited now user_id (checks user_id earlier self).2).1
    = bool_decide (RATE_LIMIT config
                   ≤ length (prune now (admitted user_id earlier self))).
Proof. apply result_counts_admitted. Qed.

Lemma denied_iff_limit_recent_witness :
  (is_rate_limited 60100000 7
     (checks 7 [0; 250000; 900000; 1000000]%Z RateLimiter_init).2).1
    = bool_decide (RATE_LIMIT config
         ≤ length (prune 60100000
                     (admitted 7 [0; 250000; 900000; 1000000]%Z RateLimiter_init))).
Proof.
  apply (denied_iff_limit_recent 60100000 7 [0; 250000; 900000; 1000000]%Z
           RateLimiter_init).
  - reflexivity.
  - repeat constructor; lia.
Defined.

(** The requests of a window are among those less than 60 seconds old at
    any reading inside the window. *)
Lemma window_within_recent (t now : Z) (reqs : list Z) :
  (now ≤ t)%Z →
  length (filter (λ a : Z, (t - timedelta_minutes 1 < a ≤ t)%Z) reqs)
    ≤ length (prune now reqs).
Proof.
  intros Hle. unfold prune.
  rewrite <- (list_filter_filter_l
                (λ a : Z, (t - timedelta_minutes 1 < a ≤ t)%Z)
                (λ req : Z, (now - timedelta_minutes 1 < req)%Z) reqs)
    by (intros a Ha; lia).
  apply length_filter.
Qed.

(** X6.  With a clock that never goes back, no window of 60 seconds holds
    more than [RATE_LIMIT] admitted requests of a user who started with no
    timestamp, whatever the instant [t] the window ends at. *)
Theorem at_most_limit_per_window
    (user_id t : Z) (times : list Z) (self : RateLimiter) :
  stamps self user_id = [] →
  StronglySorted Z.le times →
  length (filter (λ a : Z, (t - timedelta_minutes 1 < a ≤ t)%Z)
            (admitted user_id times self)) ≤ RATE_LIMIT config.
Proof.
  intros Hfresh. induction times as [|now times IH] using rev_ind; intros Hsorted.
  { cbn [admitted]. rewrite filter_nil. cbn [length]. lia. }
  apply StronglySorted_app in Hsorted as (Hle & Hsorted & _).
  specialize (IH Hsorted).
  assert (Hpast : Forall (λ x : Z, (x ≤ now)%Z) times).
  { apply Forall_forall. intros x Hx. apply Hle; [done|]. by apply list_elem_of_singleton. }
  pose proof (result_counts_admitted now user_id times self Hfresh Hpast) as Hres.
  rewrite admitted_app, filter_app, length_app. cbn [admitted].
  destruct (is_rate_limited now user_id (checks user_id times self).2).1.
  { cbn [app]. rewrite filter_nil. cbn [length]. lia. }
  symmetry in Hres. apply bool_decide_eq_false in Hres.
  rewrite app_nil_r.
  destruct (decide (t - timedelta_minutes 1 < now ≤ t)%Z) as [Hin|Hout].
  - rewrite filter_cons_True, filter_nil by done. cbn [length].
    pose proof (window_within_recent t now (admitted user_id times self)).
    lia.
  - rewrite filter_cons_False, filter_nil by done. cbn [length]. lia.
Qed.

Lemma at_most_limit_per_window_witness :
  length (filter (λ a : Z, (60500000 - timedelta_minutes 1 < a ≤ 60500000)%Z)
            (admitted 7 [0; 250000; 900000; 1000000; 60000000; 60250000; 60300000]%Z
               RateLimiter_init)) ≤ RATE_LIMIT config.
Proof.
  apply (at_most_limit_per_window 7 60500000
           [0; 250000; 900000; 1000000; 60000000; 60250000; 60300000]%Z
           RateLimiter_init).
  - reflexivity.
  - repeat (apply SSorted_cons; [|repeat constructor; lia]). constructor.
Defined.

(** X7.  A user whose sequence holds [RATE_LIMIT] timestamps is denied
    exactly while the clock reads less than 60 seconds after the earliest
    of them, a clock that has been set back included. *)
Theorem denied_until_window_passes (now user_id a : Z) (self : RateLimiter) :
  length (stamps self user_id) = RATE_LIMIT config →
  earliest (stamps self user_id) = Some a →
  (is_rate_limited now user_id self).1
    = bool_decide (now < a + timedelta_minutes 1)%Z.
Proof.
  intros Hfull Hmin. rewrite is_rate_limited_result.
  destruct (decide (now < a + timedelta_minutes 1)%Z) as [Hnow|Hnow].
  - rewrite (bool_decide_eq_true_2 (now < _)%Z) by done.
    rewrite prune_all.
    + apply bool_decide_eq_true. lia.
    + eapply Forall_impl; [exact (earliest_le _ _ Hmin)|]. cbn beta. intros; lia.
  - rewrite (bool_decide_eq_false_2 (now < _)%Z) by done.
    apply bool_decide_eq_false.
    pose proof (prune_drops now _ a (earliest_elem _ _ Hmin)). lia.
Qed.

Lemma denied_until_window_passes_witness :
  (is_rate_limited 59999999 7 busy).1 = bool_decide (59999999 < 0 + timedelta_minutes 1)%Z.
Proof.
  apply (denied_until_window_passes 59999999 7 0 busy); reflexivity.
Defined.

(** ** The handler: further properties *)

Section handler_more.
Implicit Types (w : world) (message : Message) (self : RateLimiter).
Implicit Types (user_id : Z) (txt prompt r : string).

Lemma limiter_after_run w message self :
  limiter_after (process_message w message self) =
    match from_user message, text message with
    | Some user_id, Some _ =>
        if notice_delivered w then (is_rate_limited (clock w) user_id self).2 else self
    | _, _ => self
    end.
Proof.
  destruct message as [[user_id|] [txt|]]; cbn [from_user text];
    [|by destruct w as [? ? [] [] [] []]..].
  destruct w as [now ask nd dok rd fd]. cbn [notice_delivered clock].
  unfold limiter_after. destruct nd; [|by destruct dok, rd, fd].
  run_handler.
  destruct (is_rate_limited now user_id self) as [[] self']; cbn [fst snd].
  - by destruct dok, rd, fd.
  - destruct (ask txt) as [[r|]|[]]; by destruct dok, rd, fd.
Qed.

Lemma completions_run w message self :
  completions (trace (process_message w message self)) =
    match from_user message, text message with
    | Some user_id, Some txt =>
        if notice_delivered w && negb (is_rate_limited (clock w) user_id self).1
        then [txt] else []
    | _, _ => []
    end.
Proof.
  destruct message as [[user_id|] [txt|]]; cbn [from_user text].
  2: { by rewrite trace_no_text. }
  2: { by rewrite trace_no_sender. }
  2: { by rewrite trace_no_sender. }
  destruct (notice_delivered w) eqn:Hn.
  2: { by rewrite trace_notice_lost. }
  destruct (is_rate_limited (clock w) user_id self).1 eqn:Hlim; cbn [andb negb].
  - rewrite trace_denied by done. unfold completions.
    rewrite !omap_app. unfold cleanup, delivery.
    by destruct (delete_ok w), (reply_delivered w).
  - rewrite trace_admitted by done. unfold completions.
    rewrite !omap_app. unfold cleanup, delivery, handler_log.
    by destruct (acreate w txt) as [?|[]], (delete_ok w), (reply_delivered w).
Qed.

End handler_more.

(** X11.  A failure of [bot.delete_message] is swallowed: whether the
    deletion works changes neither the replies that reach the user, nor
    the completion calls, nor the limiter, nor how the handler ends. *)
Theorem deletion_failure_swallowed
    (ok : bool) (w : world) (message : Message) (self : RateLimiter) :
  replies (trace (process_message (with_delete_ok ok w) message self))
    = replies (trace (process_message w message self))
  ∧ completions (trace (process_message (with_delete_ok ok w) message self))
    = completions (trace (process_message w message self))
  ∧ limiter_after (process_message (with_delete_ok ok w) message self)
    = limiter_after (process_message w message self)
  ∧ ending (process_message (with_delete_ok ok w) message self)
    = ending (process_message w message self).
Proof.
  unfold with_delete_ok. destruct ok;
    handler_paths w message self; repeat split; reflexivity.
Qed.

(** X12.  The limiter after a message: the rate check is made, and the
    quota of the sender used as [is_rate_limited] decides, whenever the
    message has a sender and a text and the notice went out, whatever
    becomes of the completion call and of the reply; no other message
    touches the limiter. *)
Theorem quota_used_by_message (w : world) (message : Message) (self : RateLimiter) :
  limiter_after (process_message w message self) =
    match from_user message, text message with
    | Some user_id, Some _ =>
        if notice_delivered w then (is_rate_limited (clock w) user_id self).2 else self
    | _, _ => self
    end.
Proof. apply limiter_after_run. Qed.

(** X13.  A message leads to at most one completion call, whose prompt is
    the text of the message and nothing else; the call is made exactly
    when the message has a sender and a text, the notice went out and the
    limiter admits the sender. *)
Theorem completion_calls_of_message
    (w : world) (message : Message) (self : RateLimiter) :
  completions (trace (process_message w message self)) =
    match from_user message, text message with
    | Some user_id, Some txt =>
        if notice_delivered w && negb (is_rate_limited (clock w) user_id self).1
        then [txt] else []
    | _, _ => []
    end.
Proof. apply completions_run. Qed.

(** X14.  When the completion call returns, the content of the first
    choice is what the user receives, unchanged; a response without content
    is answered with the generic apology. *)
Theorem completion_relayed
    (w : world) (message : Message) (self : RateLimiter)
    (prompt : string) (content : option string) :
  ChatCompletion prompt ∈ trace (process_message w message self) →
  acreate w prompt = Completed content →
  reply_delivered w = true →
  replies (trace (process_message w message self)) = [default apology_text content].
Proof.
  intros Hcall Hdone Hsent.
  rewrite (replies_after_completion _ _ _ _ Hcall), Hsent, Hdone.
  by destruct content.
Qed.

Lemma completion_relayed_witness :
  replies (trace (process_message (calm 1000000) (hello 8) busy)) = ["hello"].
Proof.
  refine (completion_relayed (calm 1000000) (hello 8) busy "hello" (Some "hello")
            _ eq_refl eq_refl).
  vm_compute. by repeat constructor.
Defined.

(** Messages of one user handled in turn ask the limiter as successive
    calls of [is_rate_limited] do. *)
Lemma serve_as_checks (user_id : Z) (txt : string) (ws : list world) :
  ∀ self : RateLimiter,
  Forall (λ w, notice_delivered w = true) ws →
  completions <$>
    (serve ((λ w, (w, {| from_user := Some user_id; text := Some txt |})) <$> ws) self).1
  = (λ limited : bool, if limited then [] else [txt])
      <$> (checks user_id (clock <$> ws) self).1.
Proof.
  induction ws as [|w ws IH]; intros self Hnotice; [done|].
  apply Forall_cons in Hnotice as [Hw Hnotice].
  cbn [fmap list_fmap serve checks fst snd].
  rewrite limiter_after_run, completions_run. cbn [from_user text].
  rewrite Hw. cbn [andb].
  f_equal; [by destruct (is_rate_limited (clock w) user_id self).1|].
  by apply IH.
Qed.

(** X15.  Of the messages a user without timestamps sends within one
    window of 60 seconds, handled in turn, the first [RATE_LIMIT] are
    forwarded to the completion endpoint, each with its own text, and none
    of the later ones is. *)
Theorem burst_forwards_up_to_limit
    (user_id lo : Z) (txt : string) (ws : list world) (self : RateLimiter) :
  stamps self user_id = [] →
  within_window lo (clock <$> ws) →
  Forall (λ w, notice_delivered w = true) ws →
  completions <$>
    (serve ((λ w, (w, {| from_user := Some user_id; text := Some txt |})) <$> ws) self).1
  = replicate (Nat.min (RATE_LIMIT config) (length ws)) [txt]
    ++ replicate (length ws - RATE_LIMIT config) [].
Proof.
  intros Hfresh Hwindow Hnotice.
  rewrite serve_as_checks by done.
  rewrite (checks_in_window user_id lo); rewrite ?Hfresh; cbn [length];
    [|lia|constructor|done].
  rewrite fmap_app, !fmap_replicate, length_fmap. by rewrite Nat.sub_0_r.
Qed.

Lemma burst_forwards_up_to_limit_witness :
  completions <$>
    (serve ((λ w, (w, {| from_user := Some 8%Z; text := Some "hi" |}))
              <$> [calm 0; calm 400000; with_completion (Raises TimeoutError) (calm 800000);
                   calm 900000; calm 59999999])
       busy).1
  = [["hi"]; ["hi"]; ["hi"]; []; []].
Proof.
  assert (Hwindow : within_window 0
            (clock <$> [calm 0; calm 400000;
                        with_completion (Raises TimeoutError) (calm 800000);
                        calm 900000; calm 59999999])).
  { unfold within_window, timedelta_minutes. cbn. repeat constructor; lia. }
  refine (burst_forwards_up_to_limit 8 0 "hi" _ busy eq_refl Hwindow _).
  repeat constructor.
Defined.
